(** * RN_ExpoSQLite_Tutorial: the form/list screen over a local item store

    A shallow embedding of [app/index.tsx] (the [App] component with its
    [loadItems] and [saveItem] callbacks) together with the JavaScript
    built-ins it relies on ([String.prototype.trim], [parseInt],
    [Number.isNaN]).  The storage functions imported from [./db] are an
    interface here; a model of them written from the specification is given
    as one instance. *)

From Stdlib Require Import List ZArith NArith String Ascii Bool Lia.
Import ListNotations.

Local Open Scope Z_scope.

(* ================================================================= *)
(** ** JavaScript strings *)

(** A JavaScript string is a finite sequence of UTF-16 code units. *)
Definition jsstring : Type := list N.

(** Literals of the source, written with the characters of the source. *)
Definition lit (s : string) : jsstring :=
  map N_of_ascii (list_ascii_of_string s).

(** ToBoolean on strings: only the empty string is falsy. *)
Definition truthy (s : jsstring) : bool :=
  match s with
  | [] => false
  | _ :: _ => true
  end.

(** WhiteSpace and LineTerminator code units of ECMAScript: TAB, LF, VT,
    FF, CR, SPACE, NBSP, the Unicode space separators, LS, PS and the
    byte order mark. *)
Definition is_white_space (c : N) : bool :=
  ((c =? 0x0009) || (c =? 0x000A) || (c =? 0x000B) || (c =? 0x000C)
   || (c =? 0x000D) || (c =? 0x0020) || (c =? 0x00A0) || (c =? 0x1680)
   || ((0x2000 <=? c) && (c <=? 0x200A))
   || (c =? 0x2028) || (c =? 0x2029) || (c =? 0x202F) || (c =? 0x205F)
   || (c =? 0x3000) || (c =? 0xFEFF))%N.

Fixpoint trimStart (s : jsstring) : jsstring :=
  match s with
  | [] => []
  | c :: rest => if is_white_space c then trimStart rest else s
  end.

Definition trimEnd (s : jsstring) : jsstring :=
  rev (trimStart (rev s)).

(** [String.prototype.trim]: white space removed from both ends. *)
Definition trim (s : jsstring) : jsstring :=
  trimEnd (trimStart s).

(* ================================================================= *)
(** ** JavaScript numbers, as far as [parseInt] produces them *)

(** The Number values [parseInt] can yield: NaN, a finite value, which
    is then integral and is represented by the integer it denotes, and the
    two infinities.  Zero stands for both zeros. *)
Inductive number : Type :=
| NaN
| Int (z : Z)
| Infinity (negative : bool).

Definition Number_isNaN (n : number) : bool :=
  match n with
  | NaN => true
  | _ => false
  end.


(** The value of a code unit as a digit: 0-9, then a-z and A-Z for 10-35. *)
Definition digit_value (c : N) : option Z :=
  if ((0x30 <=? c) && (c <=? 0x39))%N then Some (Z.of_N c - 0x30)
  else if ((0x61 <=? c) && (c <=? 0x7A))%N then Some (Z.of_N c - 0x61 + 10)
  else if ((0x41 <=? c) && (c <=? 0x5A))%N then Some (Z.of_N c - 0x41 + 10)
  else None.

Definition radix_digit (R : Z) (c : N) : option Z :=
  match digit_value c with
  | Some d => if d <? R then Some d else None
  | None => None
  end.

(** The longest prefix of radix-[R] digits, as digit values. *)
Fixpoint digits_prefix (R : Z) (s : jsstring) : list Z :=
  match s with
  | [] => []
  | c :: rest =>
      match radix_digit R c with
      | Some d => d :: digits_prefix R rest
      | None => []
      end
  end.

Definition digits_value (R : Z) (ds : list Z) : Z :=
  fold_left (fun acc d => acc * R + d) ds 0.

Definition is_0x_prefix (s : jsstring) : bool :=
  match s with
  | a :: b :: _ => ((a =? 0x30) && ((b =? 0x78) || (b =? 0x58)))%N
  | _ => false
  end.

(** The binary64 nearest to a natural number [m], ties to the even
    significand: [m] itself below 2^53; above, the 53 leading bits of [m],
    rounded by what is cut off; [None] when that reaches 2^1024. *)
Definition round_binary64 (m : Z) : option Z :=
  if m <? 2 ^ 53 then Some m
  else
    let shift := Z.log2 m - 52 in
    let q := Z.shiftr m shift in
    let r := m - Z.shiftl q shift in
    let half := 2 ^ (shift - 1) in
    let q' := if (half <? r) || ((r =? half) && Z.odd q) then q + 1 else q in
    let v := Z.shiftl q' shift in
    if 2 ^ 1024 <=? v then None else Some v.

(** The Number value of [sign * m], for a natural number [m]. *)
Definition to_number (sign m : Z) : number :=
  match round_binary64 m with
  | Some v => Int (sign * v)
  | None => Infinity (sign <? 0)
  end.

(** [parseInt(string, radix)], following the steps of the language
    definition: leading white space is skipped, one sign is read, the
    radix is settled, the longest digit prefix is converted to the
    nearest Number value, and NaN is the answer when that prefix is
    empty.  (Past twenty significant decimal digits the language lets an
    implementation read the rest as zeros; the exact value is rounded
    here, as the engines in use do.) *)
Definition parseInt (input : jsstring) (radix : Z) : number :=
  let S0 := trimStart input in
  let sign : Z :=
    match S0 with
    | c :: _ => if (c =? 0x2D)%N then -1 else 1
    | [] => 1
    end in
  let S1 :=
    match S0 with
    | c :: rest => if ((c =? 0x2B) || (c =? 0x2D))%N then rest else S0
    | [] => S0
    end in
  if negb (radix =? 0) && ((radix <? 2) || (36 <? radix)) then NaN
  else
    let stripPrefix := (radix =? 0) || (radix =? 16) in
    let hex := stripPrefix && is_0x_prefix S1 in
    let R := if hex then 16 else if radix =? 0 then 10 else radix in
    let S2 := if hex then skipn 2 S1 else S1 in
    match digits_prefix R S2 with
    | [] => NaN
    | ds => to_number sign (digits_value R ds)
    end.

(** The specification's other reading of a quantity text: a fully
    numeric base-10 integer string, an optional sign and then decimal
    digits, at least one, to the end. *)
Definition is_decimal_digit (c : N) : bool :=
  ((0x30 <=? c) && (c <=? 0x39))%N.

Definition fully_numeric (s : jsstring) : bool :=
  let body :=
    match s with
    | c :: rest => if ((c =? 0x2B) || (c =? 0x2D))%N then rest else s
    | [] => s
    end in
  truthy body && forallb is_decimal_digit body.

(* ================================================================= *)
(** ** Items and the storage interface *)

(** The [Item] rows of [./db]: what the list renders of each one. *)
Record Item : Type := mkItem {
  item_id : Z;
  item_name : jsstring;
  item_quantity : number
}.

(** A thrown value. *)
Inductive error : Type :=
| Error (message : jsstring).

(** How an evaluation ends: with a value, or by throwing. *)
Inductive completion (A : Type) : Type :=
| Normal (v : A)
| Throw (err : error).

Arguments Normal {A} v.
Arguments Throw {A} err.

Definition is_normal {A : Type} (c : completion A) : bool :=
  match c with
  | Normal _ => true
  | Throw _ => false
  end.

(** The two functions the screen imports from [./db], over the database
    handle of [useSQLiteContext].  Each call settles with a completion and
    leaves the database in a new state. *)
Class StorageAdapter : Type := {
  SQLiteDatabase : Type;
  insertItem : SQLiteDatabase -> jsstring -> number ->
               completion unit * SQLiteDatabase;
  fetchItems : SQLiteDatabase -> completion (list Item) * SQLiteDatabase
}.

(* ================================================================= *)
(** ** The screen *)

Inductive LogEntry : Type :=
| LogStr (s : jsstring)
| LogErr (err : error).

(** What the screen does to the storage functions, in order: every call
    and every settlement. *)
Inductive Event : Type :=
| CallInsert (name : jsstring) (quantity : number)
| InsertSettled (ok : bool)
| CallFetch
| FetchSettled (ok : bool).

Definition is_CallInsert (e : Event) : bool :=
  match e with
  | CallInsert _ _ => true
  | _ => false
  end.

Definition is_CallFetch (e : Event) : bool :=
  match e with
  | CallFetch => true
  | _ => false
  end.

Definition settled_as (e : Event) (insert ok : bool) : bool :=
  match e with
  | InsertSettled b => insert && Bool.eqb b ok
  | FetchSettled b => negb insert && Bool.eqb b ok
  | _ => false
  end.

Definition insert_attempted (evs : list Event) : bool :=
  existsb is_CallInsert evs.

Definition insert_failed (evs : list Event) : bool :=
  existsb (fun e => settled_as e true false) evs.

Definition fetch_failed (evs : list Event) : bool :=
  existsb (fun e => settled_as e false false) evs.

Definition insert_succeeded (evs : list Event) : bool :=
  existsb (fun e => settled_as e true true) evs.

Definition fetch_succeeded (evs : list Event) : bool :=
  existsb (fun e => settled_as e false true) evs.

Section Screen.

Context {SA : StorageAdapter}.

(** The three [useState] cells, the database behind [db], the console,
    and the record of storage calls. *)
Record World : Type := mkWorld {
  db : SQLiteDatabase;
  name : jsstring;
  quantity : jsstring;
  items : list Item;
  console : list LogEntry;
  calls : list Event
}.

(** Computations of the screen: they read and write the world and end
    with a completion. *)
Definition M (A : Type) : Type := World -> completion A * World.

Definition ret {A : Type} (v : A) : M A := fun w => (Normal v, w).

Definition bind {A B : Type} (m : M A) (k : A -> M B) : M B :=
  fun w =>
    match m w with
    | (Normal v, w') => k v w'
    | (Throw err, w') => (Throw err, w')
    end.

Definition try_catch {A : Type} (body : M A) (handler : error -> M A) : M A :=
  fun w =>
    match body w with
    | (Normal v, w') => (Normal v, w')
    | (Throw err, w') => handler err w'
    end.

Definition exec {A : Type} (m : M A) (w : World) : World := snd (m w).

Definition setName (v : jsstring) : M unit :=
  fun w => (Normal tt, mkWorld (db w) v (quantity w) (items w) (console w) (calls w)).

Definition setQuantity (v : jsstring) : M unit :=
  fun w => (Normal tt, mkWorld (db w) (name w) v (items w) (console w) (calls w)).

Definition setItems (v : list Item) : M unit :=
  fun w => (Normal tt, mkWorld (db w) (name w) (quantity w) v (console w) (calls w)).

Definition console_log (e : LogEntry) : M unit :=
  fun w => (Normal tt,
            mkWorld (db w) (name w) (quantity w) (items w) (console w ++ [e]) (calls w)).

Definition record (e : Event) (w : World) : World :=
  mkWorld (db w) (name w) (quantity w) (items w) (console w) (calls w ++ [e]).

Definition with_db (d : SQLiteDatabase) (w : World) : World :=
  mkWorld d (name w) (quantity w) (items w) (console w) (calls w).

(** [await insertItem(db, n, q)] *)
Definition await_insertItem (n : jsstring) (q : number) : M unit :=
  fun w =>
    let w1 := record (CallInsert n q) w in
    let r := insertItem (db w1) n q in
    (fst r, record (InsertSettled (is_normal (fst r))) (with_db (snd r) w1)).

(** [await fetchItems(db)] *)
Definition await_fetchItems : M (list Item) :=
  fun w =>
    let w1 := record CallFetch w in
    let r := fetchItems (db w1) in
    (fst r, record (FetchSettled (is_normal (fst r))) (with_db (snd r) w1)).

End Screen.

Arguments World {SA}.
Arguments M {SA} A.

Declare Scope screen_scope.
Delimit Scope screen_scope with screen.

Notation "x <- m ;; k" := (bind m (fun x => k))
  (at level 61, m at next level, right associativity) : screen_scope.
Notation "m ;; k" := (bind m (fun _ => k))
  (at level 61, right associativity) : screen_scope.
Notation "'try' body 'catch' err => handler" :=
  (try_catch body (fun err => handler))
  (at level 62, err name, body at level 61, handler at level 61) : screen_scope.

Section Controller.

Context {SA : StorageAdapter}.

Local Open Scope screen_scope.
Local Open Scope string_scope.

Definition loadItems : M unit :=
  try
    (value <- await_fetchItems ;;
     setItems value)
  catch err =>
    (console_log (LogStr (lit "Failed to fetch items")) ;;
     console_log (LogErr err)).

(** [name] and [quantity] are the values of the render in which the
    button was pressed. *)
Definition saveItem : M unit :=
  fun w =>
    (if negb (truthy (trim (name w))) then ret tt
     else
       let parsedQuantity := parseInt (quantity w) 10 in
       if Number_isNaN parsedQuantity then ret tt
       else
         try
           (await_insertItem (name w) parsedQuantity ;;
            loadItems ;;
            setName (lit "") ;;
            setQuantity (lit ""))
         catch err =>
           (console_log (LogStr (lit "Failed to save item")) ;;
            console_log (LogErr err))) w.

(** The first render over a database: empty fields and an empty list. *)
Definition App (d : SQLiteDatabase) : World :=
  mkWorld d (lit "") (lit "") [] [] [].

(** The effect of [useEffect(() => { loadItems(); }, [])]. *)
Definition mount (w : World) : World := exec loadItems w.

(** What the user can do on the screen: type in either field (the
    inputs are bound to [setName] and [setQuantity]) and press the
    button (bound to [saveItem]). *)
Inductive UserAction : Type :=
| ChangeName (text : jsstring)
| ChangeQuantity (text : jsstring)
| PressSave.

Definition handle (a : UserAction) (w : World) : World :=
  match a with
  | ChangeName text => exec (setName text) w
  | ChangeQuantity text => exec (setQuantity text) w
  | PressSave => exec saveItem w
  end.

Definition session (actions : list UserAction) (w : World) : World :=
  fold_left (fun w a => handle a w) actions w.

(** The storage events of a computation started in [w]. *)
Definition calls_during {A : Type} (m : M A) (w : World) : list Event :=
  skipn (List.length (calls w)) (calls (exec m w)).

End Controller.

(* ================================================================= *)
(** ** The storage adapter of [./db] *)

Module Db.

(** Modelled from the spec: the database behind the handle, which
    [app/db.ts] drives and which is not among the sources.  It holds the
    rows of the one table in insertion order, and what the store will
    answer to the calls to come: [Some e] where it rejects the call
    (unreachable, full, input/output error), [None] where it accepts it;
    once the list is used up every call is accepted. *)
Record Store : Type := mkStore {
  rows : list Item;
  faults : list (option error)
}.

Definition next_fault (s : Store) : option error :=
  match faults s with
  | Some e :: _ => Some e
  | _ => None
  end.

Definition later (s : Store) : list (option error) := tl (faults s).

(** Modelled from the spec: the identifier is auto-assigned and unique;
    as for a row id, one more than the largest in the table. *)
Definition fresh_id (l : list Item) : Z :=
  1 + fold_right Z.max 0 (map item_id l).

(** Modelled from the spec: [insert(name, quantity)] of section 4.1,
    [insertItem] of [app/db.ts], missing from the sources.  It appends
    one Item with an auto-assigned identifier, the two values passed as
    bound parameters, and fails if the store rejects the write. *)
Definition insertItem (s : Store) (n : jsstring) (q : number)
  : completion unit * Store :=
  match next_fault s with
  | Some e => (Throw e, mkStore (rows s) (later s))
  | None => (Normal tt,
             mkStore (rows s ++ [mkItem (fresh_id (rows s)) n q]) (later s))
  end.

(** Modelled from the spec: [fetchAll()] of section 4.1, [fetchItems] of
    [app/db.ts], missing from the sources.  It returns all Items in
    insertion order, an empty sequence if no rows exist, and fails if
    the store is unreachable. *)
Definition fetchItems (s : Store) : completion (list Item) * Store :=
  match next_fault s with
  | Some e => (Throw e, mkStore (rows s) (later s))
  | None => (Normal (rows s), mkStore (rows s) (later s))
  end.

#[export] Instance adapter : StorageAdapter := {
  SQLiteDatabase := Store;
  insertItem := insertItem;
  fetchItems := fetchItems
}.

Definition empty : Store := mkStore [] [].

End Db.

(* ================================================================= *)
(** ** Outcomes of one run, by how the storage calls settle *)

Section Outcomes.

Context {SA : StorageAdapter}.

Local Open Scope string_scope.

(** The world after [loadItems] when the fetch settles with [r],
    leaving the database as [d]. *)
Definition after_load (w : World) (r : completion (list Item))
           (d : SQLiteDatabase) : World :=
  match r with
  | Normal value =>
      mkWorld d (name w) (quantity w) value (console w)
              (calls w ++ [CallFetch; FetchSettled true])
  | Throw err =>
      mkWorld d (name w) (quantity w) (items w)
              (console w ++ [LogStr (lit "Failed to fetch items"); LogErr err])
              (calls w ++ [CallFetch; FetchSettled false])
  end.

(** The world after the guarded part of [saveItem]: the insert settles
    with [ri] leaving [d1], and, if it went through, the fetch settles
    with [rf] leaving [d2]. *)
Definition after_save (w : World) (q : number) (ri : completion unit)
           (d1 : SQLiteDatabase) (rf : completion (list Item))
           (d2 : SQLiteDatabase) : World :=
  match ri with
  | Throw err =>
      mkWorld d1 (name w) (quantity w) (items w)
              (console w ++ [LogStr (lit "Failed to save item"); LogErr err])
              (calls w ++ [CallInsert (name w) q; InsertSettled false])
  | Normal _ =>
      match rf with
      | Normal value =>
          mkWorld d2 (lit "") (lit "") value (console w)
                  (calls w ++ [CallInsert (name w) q; InsertSettled true;
                               CallFetch; FetchSettled true])
      | Throw err =>
          mkWorld d2 (lit "") (lit "") (items w)
                  (console w ++ [LogStr (lit "Failed to fetch items"); LogErr err])
                  (calls w ++ [CallInsert (name w) q; InsertSettled true;
                               CallFetch; FetchSettled false])
      end
  end.

(** The storage events of a save whose insert settles with [ri] and
    whose fetch, if issued, settles with [rf]. *)
Definition save_events (n : jsstring) (q : number) (ri : completion unit)
           (rf : completion (list Item)) : list Event :=
  match ri with
  | Throw _ => [CallInsert n q; InsertSettled false]
  | Normal _ =>
      [CallInsert n q; InsertSettled true; CallFetch;
       FetchSettled (is_normal rf)]
  end.

(** Every run of [saveItem] is one of two: a rejected input, which
    leaves the world as it was, or a validated one, which goes through
    the insert and, after it, the reload. *)
Inductive save_run (w : World) : Prop :=
| save_rejected :
    trim (name w) = [] \/ parseInt (quantity w) 10 = NaN ->
    exec saveItem w = w ->
    calls_during saveItem w = [] ->
    save_run w
| save_validated (q : number) :
    trim (name w) <> [] ->
    parseInt (quantity w) 10 = q ->
    let ri := insertItem (db w) (name w) q in
    let rf := fetchItems (snd ri) in
    exec saveItem w = after_save w q (fst ri) (snd ri) (fst rf) (snd rf) ->
    calls_during saveItem w = save_events (name w) q (fst ri) (fst rf) ->
    Number_isNaN q = false ->
    save_run w.

End Outcomes.

(** Worlds to run the screen on: the screen mounted over a store, with
    two texts typed into the fields. *)
Definition typed (n q : string) (d : Db.Store) : World :=
  session [ChangeName (lit n); ChangeQuantity (lit q)]
          (mount (App (SA := Db.adapter) d)).

Definition unreachable : error := Error (lit "store unreachable").



(** A quantity text too long for binary64: 1 and then 309 zeros. *)
Definition huge_quantity : jsstring := lit "1" ++ repeat 0x30%N 309.

(* ================================================================= *)
(** ** Reading a quantity text, and writing a number *)

(** What is left of a text once one leading sign is taken off. *)
Definition drop_sign (s : jsstring) : jsstring :=
  match s with
  | c :: rest => if ((c =? 0x2B) || (c =? 0x2D))%N then rest else s
  | [] => s
  end.

Definition starts_with_digit (s : jsstring) : bool :=
  match s with
  | c :: _ => is_decimal_digit c
  | [] => false
  end.

(** The number a run of decimal digits writes. *)
Definition decimal_value (ds : jsstring) : Z :=
  digits_value 10 (map (fun c => Z.of_N c - 0x30) ds).

Definition digit_char (d : Z) : N := Z.to_N (0x30 + d).

(** The decimal digits of a natural number, most significant first;
    [fuel] bounds the number of digits. *)
Fixpoint decimal_digits (fuel : nat) (z : Z) : jsstring :=
  match fuel with
  | O => []
  | S fuel' =>
      if z <? 10 then [digit_char z]
      else decimal_digits fuel' (z / 10) ++ [digit_char (z mod 10)]
  end.

(** [Number.prototype.toString()], and the text React puts for a number
    child: NaN and the infinities by name, an integer in decimal with its
    sign.  This is the
    text JavaScript gives for the safe integers, those below 2^53 in
    absolute value; beyond them it writes the shortest decimal that reads
    back as the same binary64, and from 10^21 on an exponent. *)
Definition Number_toString (n : number) : jsstring :=
  match n with
  | NaN => lit "NaN"
  | Int z =>
      if z <? 0
      then 0x2D%N :: decimal_digits (S (Z.to_nat (Z.log2 (- z)))) (- z)
      else decimal_digits (S (Z.to_nat (Z.log2 z))) z
  | Infinity negative =>
      if negative then lit "-Infinity" else lit "Infinity"
  end.

Definition safe_integer (z : Z) : Prop := Z.abs z < 2 ^ 53.

(* ================================================================= *)
(** ** The list on the screen *)

(** [keyExtractor={item => item.id.toString()}] *)
Definition keyExtractor (item : Item) : jsstring :=
  Number_toString (Int (item_id item)).

(** [renderItem]: the two texts of a row, the name and the quantity. *)
Definition renderItem (item : Item) : jsstring * jsstring :=
  (item_name item, Number_toString (item_quantity item)).

(* ================================================================= *)
(** ** Counting what a session does *)

Definition is_PressSave (a : UserAction) : bool :=
  match a with
  | PressSave => true
  | _ => false
  end.

Definition presses (actions : list UserAction) : nat :=
  List.length (filter is_PressSave actions).

Definition inserts (evs : list Event) : nat :=
  List.length (filter is_CallInsert evs).

Definition fetches (evs : list Event) : nat :=
  List.length (filter is_CallFetch evs).

(* ================================================================= *)
(** ** The bundler configuration, [metro.config.js] *)

Module Metro.

(** The two lists of the resolver that the file rewrites. *)
Record Resolver : Type := mkResolver {
  assetExts : list jsstring;
  sourceExts : list jsstring
}.

(** [a !== b] on strings *)
Definition strict_neq (a b : jsstring) : bool :=
  if list_eq_dec N.eq_dec a b then false else true.

(** The exported configuration, from the one [getDefaultConfig] gives. *)
Definition config (defaults : Resolver) : Resolver :=
  mkResolver
    (assetExts defaults ++ [lit "wasm"])
    (filter (fun ext => strict_neq ext (lit "wasm")) (sourceExts defaults)).

End Metro.

(* ================================================================= *)
(** ** The built-ins on the texts the screen meets *)

Example parseInt_5 : parseInt (lit "5") 10 = Int 5.
Proof. reflexivity. Qed.

Example parseInt_12abc : parseInt (lit "12abc") 10 = Int 12.
Proof. reflexivity. Qed.

Example parseInt_abc : parseInt (lit "abc") 10 = NaN.
Proof. reflexivity. Qed.

Example parseInt_empty : parseInt (lit "") 10 = NaN.
Proof. reflexivity. Qed.

Example parseInt_signed : parseInt (lit "  -42 ") 10 = Int (-42).
Proof. reflexivity. Qed.

Example parseInt_hex : parseInt (lit "0x1F") 16 = Int 31.
Proof. reflexivity. Qed.

Example parseInt_0x_decimal : parseInt (lit "0x1F") 10 = Int 0.
Proof. reflexivity. Qed.

Example parseInt_ties_to_even :
  parseInt (lit "9007199254740993") 10 = Int 9007199254740992.
Proof. reflexivity. Qed.

Example parseInt_rounds_up :
  parseInt (lit "9007199254740995") 10 = Int 9007199254740996.
Proof. reflexivity. Qed.

Example round_binary64_largest :
  round_binary64 (2 ^ 1024 - 2 ^ 970 - 1) = Some (2 ^ 1024 - 2 ^ 971).
Proof. vm_compute. reflexivity. Qed.

Example round_binary64_overflow :
  round_binary64 (2 ^ 1024 - 2 ^ 970) = None.
Proof. vm_compute. reflexivity. Qed.

Example parseInt_huge_negative :
  parseInt (0x2D%N :: huge_quantity) 10 = Infinity true.
Proof. vm_compute. reflexivity. Qed.

Example trim_spaces : trim (lit "  Apples ") = lit "Apples".
Proof. reflexivity. Qed.

Example trim_blank : trim (lit "   ") = [].
Proof. reflexivity. Qed.

(* ================================================================= *)
(** ** What one run of [loadItems] and of [saveItem] does *)

Lemma skipn_length_app {A : Type} (l l' : list A) :
  skipn (List.length l) (l ++ l') = l'.
Proof.
  induction l as [| x l IH]; simpl; auto.
Qed.

Lemma skipn_length_self {A : Type} (l : list A) :
  skipn (List.length l) l = [].
Proof.
  rewrite <- (app_nil_r l) at 2. apply skipn_length_app.
Qed.

Section ControllerFacts.

Context {SA : StorageAdapter}.

Lemma loadItems_run (w : World) :
  loadItems w =
    (Normal tt,
     after_load w (fst (fetchItems (db w))) (snd (fetchItems (db w)))).
Proof.
  unfold loadItems, try_catch, bind, await_fetchItems, setItems,
    console_log, record, with_db, after_load; simpl.
  destruct (fetchItems (db w)) as [[value | err] d]; simpl;
    rewrite <- !app_assoc; reflexivity.
Qed.

Lemma saveItem_blank_name (w : World) :
  trim (name w) = [] -> saveItem w = (Normal tt, w).
Proof.
  intros Hn. unfold saveItem. rewrite Hn. reflexivity.
Qed.

Lemma saveItem_NaN (w : World) :
  parseInt (quantity w) 10 = NaN -> saveItem w = (Normal tt, w).
Proof.
  intros Hq. unfold saveItem. rewrite Hq.
  destruct (negb (truthy (trim (name w)))); reflexivity.
Qed.

Lemma saveItem_valid (w : World) (q : number) :
  trim (name w) <> [] ->
  parseInt (quantity w) 10 = q ->
  Number_isNaN q = false ->
  let ri := insertItem (db w) (name w) q in
  let rf := fetchItems (snd ri) in
  saveItem w =
    (Normal tt, after_save w q (fst ri) (snd ri) (fst rf) (snd rf)).
Proof.
  intros Hn Hq Hnan ri rf. unfold saveItem. rewrite Hq, Hnan.
  destruct (trim (name w)) as [| c t] eqn:Ht; [congruence |].
  cbn [truthy negb].
  unfold try_catch, bind at 1. unfold await_insertItem at 1.
  cbn [db record with_db fst snd].
  fold ri. destruct ri as [[u | err] d1] eqn:Hri; cbn [fst snd is_normal].
  - unfold bind at 1. rewrite loadItems_run.
    unfold record, with_db. cbn [db fst snd].
    subst rf. cbn [snd].
    destruct (fetchItems d1) as [[value | e] d2]; cbn;
      rewrite <- !app_assoc; reflexivity.
  - unfold bind, console_log, record, with_db. cbn.
    rewrite <- !app_assoc. reflexivity.
Qed.

Lemma calls_after_save (w : World) (q : number) ri d1 rf d2 :
  calls (after_save w q ri d1 rf d2) = calls w ++ save_events (name w) q ri rf.
Proof.
  destruct ri as [u | e]; [destruct rf as [v | e] |]; reflexivity.
Qed.

Lemma saveItem_cases (w : World) : save_run w.
Proof.
  destruct (trim (name w)) as [| c t] eqn:Hn.
  - apply save_rejected; auto.
    + unfold exec. rewrite saveItem_blank_name; auto.
    + unfold calls_during, exec. rewrite saveItem_blank_name; auto.
      apply skipn_length_self.
  - destruct (Number_isNaN (parseInt (quantity w) 10)) eqn:Hnan.
    + assert (Hq : parseInt (quantity w) 10 = NaN)
        by (destruct (parseInt (quantity w) 10); (reflexivity || discriminate)).
      apply save_rejected; auto.
      * unfold exec. rewrite saveItem_NaN; auto.
      * unfold calls_during, exec. rewrite saveItem_NaN; auto.
        apply skipn_length_self.
    + assert (Hne : trim (name w) <> []) by (rewrite Hn; discriminate).
      apply (save_validated w (parseInt (quantity w) 10)); auto.
      * unfold exec. rewrite (saveItem_valid w _ Hne eq_refl Hnan). reflexivity.
      * unfold calls_during, exec.
        rewrite (saveItem_valid w _ Hne eq_refl Hnan).
        cbn [snd]. rewrite calls_after_save. apply skipn_length_app.
Qed.

End ControllerFacts.

(* ================================================================= *)
(** ** Validation *)

(** C4: whenever the trimmed name is the empty string, [saveItem]
    attempts no insert and the items list is what it was. *)
Theorem saveItem_blank_name_no_insert {SA : StorageAdapter} (w : World) :
  trim (name w) = [] ->
  insert_attempted (calls_during saveItem w) = false /\
  items (exec saveItem w) = items w.
Proof.
  intros Hn. unfold calls_during, exec.
  rewrite (saveItem_blank_name w Hn). cbn [snd].
  rewrite skipn_length_self. split; reflexivity.
Qed.

Lemma saveItem_blank_name_no_insert_witness :
  trim (name (typed "   " "5" Db.empty)) = [] /\
  insert_attempted (calls_during saveItem (typed "   " "5" Db.empty)) = false /\
  items (exec saveItem (typed "   " "5" Db.empty)) = items (typed "   " "5" Db.empty).
Proof.
  split; [reflexivity |].
  apply (saveItem_blank_name_no_insert (typed "   " "5" Db.empty)).
  reflexivity.
Defined.

(** C5: whenever base-10 [parseInt] of the quantity text is NaN,
    [saveItem] attempts no insert. *)
Theorem saveItem_NaN_no_insert {SA : StorageAdapter} (w : World) :
  parseInt (quantity w) 10 = NaN ->
  insert_attempted (calls_during saveItem w) = false.
Proof.
  intros Hq. unfold calls_during, exec.
  rewrite (saveItem_NaN w Hq). cbn [snd].
  rewrite skipn_length_self. reflexivity.
Qed.

Lemma saveItem_NaN_no_insert_witness :
  parseInt (quantity (typed "Apples" "abc" Db.empty)) 10 = NaN /\
  insert_attempted (calls_during saveItem (typed "Apples" "abc" Db.empty)) = false.
Proof.
  split; [reflexivity |].
  apply (saveItem_NaN_no_insert (typed "Apples" "abc" Db.empty)).
  reflexivity.
Defined.

(** C1, as the specification words it, fails: the quantity text 12abc
    is not all digits, and yet the save attempts an insert, with the
    quantity 12 that [parseInt] reads off its front. *)
Lemma saveItem_12abc_inserts :
  fully_numeric (lit "12abc") = false /\
  parseInt (lit "12abc") 10 = Int 12 /\
  insert_attempted (calls_during saveItem (typed "Milk" "12abc" Db.empty)) = true /\
  calls_during saveItem (typed "Milk" "12abc" Db.empty) =
    [CallInsert (lit "Milk") (Int 12); InsertSettled true;
     CallFetch; FetchSettled true].
Proof.
  repeat split; reflexivity.
Qed.

(** C1, amended: the quantity text 12abc is accepted.  With a name that
    is not blank, the save's first storage event is an insert of that
    name with quantity 12. *)
Theorem saveItem_12abc_accepted {SA : StorageAdapter} (w : World) :
  trim (name w) <> [] ->
  quantity w = lit "12abc" ->
  exists rest,
    calls_during saveItem w = CallInsert (name w) (Int 12) :: rest.
Proof.
  intros Hn Hq.
  destruct (saveItem_cases w) as [[Hb | Hb] _ _ | z _ Hz ri rf _ Hc _].
  - contradiction.
  - rewrite Hq in Hb. discriminate Hb.
  - rewrite Hq in Hz. change (parseInt (lit "12abc") 10) with (Int 12) in Hz.
    subst z. rewrite Hc. unfold save_events.
    destruct (fst ri); eexists; reflexivity.
Qed.

Lemma saveItem_12abc_accepted_witness :
  exists rest,
    calls_during saveItem (typed "Milk" "12abc" Db.empty) =
      CallInsert (lit "Milk") (Int 12) :: rest.
Proof.
  apply (saveItem_12abc_accepted (typed "Milk" "12abc" Db.empty)).
  - discriminate.
  - reflexivity.
Defined.

(** C10: when a save reaches the storage, its first event is the one
    insert it makes, called with the name exactly as the field holds it
    (white space at either end included) and with base-10 [parseInt] of
    the quantity text. *)
Theorem saveItem_insert_arguments {SA : StorageAdapter} (w : World) :
  insert_attempted (calls_during saveItem w) = true ->
  exists rest,
    calls_during saveItem w =
      CallInsert (name w) (parseInt (quantity w) 10) :: rest /\
    insert_attempted rest = false.
Proof.
  intros Ha.
  destruct (saveItem_cases w) as [_ _ Hc | z _ Hz ri rf _ Hc _].
  - rewrite Hc in Ha. discriminate Ha.
  - rewrite Hc, Hz. unfold save_events.
    destruct (fst ri); eexists; split; reflexivity.
Qed.

Lemma saveItem_insert_arguments_witness :
  exists rest,
    calls_during saveItem (typed "  Apples " "5" Db.empty) =
      CallInsert (lit "  Apples ") (Int 5) :: rest /\
    insert_attempted rest = false.
Proof.
  apply (saveItem_insert_arguments (typed "  Apples " "5" Db.empty)).
  reflexivity.
Defined.

(* ================================================================= *)
(** ** Failures *)

(** C2, as the specification words it, fails: when the insert goes
    through and the reload's fetch fails, the list keeps its contents but
    both fields are cleared. *)
Lemma saveItem_fetch_failure_clears_fields :
  fetch_failed
    (calls_during saveItem
       (typed "Apples" "5" (Db.mkStore [] [None; None; Some unreachable]))) = true /\
  name (typed "Apples" "5" (Db.mkStore [] [None; None; Some unreachable]))
    = lit "Apples" /\
  quantity (typed "Apples" "5" (Db.mkStore [] [None; None; Some unreachable]))
    = lit "5" /\
  name (exec saveItem
          (typed "Apples" "5" (Db.mkStore [] [None; None; Some unreachable])))
    = lit "" /\
  quantity (exec saveItem
              (typed "Apples" "5" (Db.mkStore [] [None; None; Some unreachable])))
    = lit "".
Proof.
  repeat split; reflexivity.
Qed.

(** C2, amended: in a save where the insert or the fetch after it
    fails, the items list keeps its contents.  If it is the insert that
    failed, both fields keep their values; if the insert went through and
    the fetch failed, both fields are cleared. *)
Theorem saveItem_failure_ui {SA : StorageAdapter} (w : World) :
  insert_failed (calls_during saveItem w)
    || fetch_failed (calls_during saveItem w) = true ->
  items (exec saveItem w) = items w /\
  name (exec saveItem w) =
    (if insert_failed (calls_during saveItem w) then name w else lit "") /\
  quantity (exec saveItem w) =
    (if insert_failed (calls_during saveItem w) then quantity w else lit "").
Proof.
  intros Hf.
  destruct (saveItem_cases w) as [_ _ Hc | z _ _ ri rf He Hc _].
  - rewrite Hc in Hf. discriminate Hf.
  - rewrite Hc in *. rewrite He. clear He Hc.
    destruct (fst ri) as [u | e]; [destruct (fst rf) as [v | e] |];
      cbn in *; try discriminate Hf; repeat split; reflexivity.
Qed.

Lemma saveItem_failure_ui_witness :
  items (exec saveItem (typed "Apples" "5" (Db.mkStore [] [None; Some unreachable])))
    = [] /\
  name (exec saveItem (typed "Apples" "5" (Db.mkStore [] [None; Some unreachable])))
    = lit "Apples" /\
  quantity (exec saveItem (typed "Apples" "5" (Db.mkStore [] [None; Some unreachable])))
    = lit "5".
Proof.
  apply (saveItem_failure_ui
           (typed "Apples" "5" (Db.mkStore [] [None; Some unreachable]))).
  reflexivity.
Defined.

(** A failed save is logged: two lines on the console, the message and
    the error. *)
Lemma saveItem_failure_logged {SA : StorageAdapter} (w : World) :
  insert_failed (calls_during saveItem w)
    || fetch_failed (calls_during saveItem w) = true ->
  exists msg err, console (exec saveItem w) = console w ++ [LogStr msg; LogErr err].
Proof.
  intros Hf.
  destruct (saveItem_cases w) as [_ _ Hc | z _ _ ri rf He Hc _].
  - rewrite Hc in Hf. discriminate Hf.
  - rewrite Hc in Hf. rewrite He. clear He Hc.
    destruct (fst ri) as [u | e]; [destruct (fst rf) as [v | e] |];
      cbn in *; try discriminate Hf; eexists; eexists; reflexivity.
Qed.

(** C8: mounting the screen calls the fetch exactly once.  If that
    fetch fails, the list stays empty and the console holds the message
    and the error; otherwise the list is what the fetch returned. *)
Theorem mount_fetches_once {SA : StorageAdapter} (d : SQLiteDatabase) :
  List.length (filter is_CallFetch (calls (mount (App d)))) = 1%nat /\
  match fst (fetchItems d) with
  | Throw err =>
      items (mount (App d)) = [] /\
      console (mount (App d)) =
        [LogStr (lit "Failed to fetch items"); LogErr err]
  | Normal value =>
      items (mount (App d)) = value /\ console (mount (App d)) = []
  end.
Proof.
  unfold mount, exec. rewrite loadItems_run. cbn [snd App db].
  destruct (fetchItems d) as [[value | err] d']; cbn; auto.
Qed.

(* ================================================================= *)
(** ** Order of the storage calls *)

(** C7: in one save, a fetch is issued only after the insert has been
    called and has settled with success; no insert follows it. *)
Theorem saveItem_fetch_after_insert {SA : StorageAdapter} (w : World)
        (pre post : list Event) :
  calls_during saveItem w = pre ++ CallFetch :: post ->
  (exists q, pre = [CallInsert (name w) q; InsertSettled true]) /\
  insert_attempted post = false.
Proof.
  intros Hs.
  destruct (saveItem_cases w) as [_ _ Hc | z _ _ ri rf _ Hc _];
    rewrite Hc in Hs; clear Hc.
  - destruct pre; discriminate Hs.
  - unfold save_events in Hs. destruct (fst ri) as [u | e].
    + destruct pre as [| e1 [| e2 [| e3 pre]]]; try discriminate Hs.
      * injection Hs as <- <- <-. split; [eexists |]; reflexivity.
      * injection Hs as _ _ _ Hs. destruct pre as [| e4 pre]; [discriminate Hs |].
        injection Hs as _ Hs. destruct pre; discriminate Hs.
    + destruct pre as [| e1 [| e2 pre]]; try discriminate Hs.
      injection Hs as _ _ Hs. destruct pre; discriminate Hs.
Qed.

Lemma saveItem_fetch_after_insert_witness :
  (exists q, [CallInsert (lit "Apples") (Int 5); InsertSettled true] =
             [CallInsert (name (typed "Apples" "5" Db.empty)) q; InsertSettled true]) /\
  insert_attempted [FetchSettled true] = false.
Proof.
  apply (saveItem_fetch_after_insert (typed "Apples" "5" Db.empty)
           [CallInsert (lit "Apples") (Int 5); InsertSettled true]
           [FetchSettled true]).
  reflexivity.
Defined.

(* ================================================================= *)
(** ** The screen over the storage adapter *)


Lemma Db_fetchItems_value (s : Db.Store) (value : list Item) :
  fst (Db.fetchItems s) = Normal value -> value = Db.rows s.
Proof.
  unfold Db.fetchItems. destruct (Db.next_fault s); cbn; congruence.
Qed.

Lemma Db_insertItem_rows (s : Db.Store) (n : jsstring) (q : number) :
  Db.rows (snd (Db.insertItem s n q)) =
    if is_normal (fst (Db.insertItem s n q))
    then Db.rows s ++ [mkItem (Db.fresh_id (Db.rows s)) n q]
    else Db.rows s.
Proof.
  unfold Db.insertItem. destruct (Db.next_fault s); reflexivity.
Qed.


(** C6: after a save of name Apples and quantity 5 in which the insert
    and the fetch both succeed, the list holds an Item named Apples with
    quantity 5 and both fields are the empty string. *)
Theorem saveItem_Apples_5 (w : World (SA := Db.adapter)) :
  name w = lit "Apples" ->
  quantity w = lit "5" ->
  insert_succeeded (calls_during saveItem w) = true ->
  fetch_succeeded (calls_during saveItem w) = true ->
  (exists it, In it (items (exec saveItem w)) /\
              item_name it = lit "Apples" /\ item_quantity it = Int 5) /\
  name (exec saveItem w) = lit "" /\
  quantity (exec saveItem w) = lit "".
Proof.
  intros Hn Hq Hi Hf.
  destruct (saveItem_cases w) as [_ _ Hc | z _ Hz ri rf He Hc _].
  - rewrite Hc in Hi. discriminate Hi.
  - rewrite Hq in Hz. change (parseInt (lit "5") 10) with (Int 5) in Hz.
    subst z.
    rewrite Hc in Hi, Hf. rewrite He. clear He Hc.
    destruct (fst ri) as [u | e] eqn:Hri; [| discriminate Hi].
    destruct (fst rf) as [value | e] eqn:Hrf; [| discriminate Hf].
    apply Db_fetchItems_value in Hrf.
    assert (Hok : is_normal (fst (Db.insertItem (db w) (name w) (Int 5))) = true)
      by (change (is_normal (fst ri) = true); rewrite Hri; reflexivity).
    pose proof (Db_insertItem_rows (db w) (name w) (Int 5)) as Hrows.
    rewrite Hok in Hrows.
    assert (Hv : value = Db.rows (db w) ++
                   [mkItem (Db.fresh_id (Db.rows (db w))) (name w) (Int 5)])
      by (rewrite Hrf; exact Hrows).
    cbn [after_save items name quantity].
    split; [| split; reflexivity].
    exists (mkItem (Db.fresh_id (Db.rows (db w))) (name w) (Int 5)).
    split; [| split; [exact Hn | reflexivity]].
    rewrite Hv. apply in_or_app. right. left. reflexivity.
Qed.

Lemma saveItem_Apples_5_witness :
  (exists it, In it (items (exec saveItem (typed "Apples" "5" Db.empty))) /\
              item_name it = lit "Apples" /\ item_quantity it = Int 5) /\
  name (exec saveItem (typed "Apples" "5" Db.empty)) = lit "" /\
  quantity (exec saveItem (typed "Apples" "5" Db.empty)) = lit "".
Proof.
  apply (saveItem_Apples_5 (typed "Apples" "5" Db.empty)); reflexivity.
Defined.










(* ================================================================= *)
(** ** Which texts pass the two checks of [saveItem] *)

Lemma trimStart_all_white (s : jsstring) :
  trimStart s = [] <-> forallb is_white_space s = true.
Proof.
  induction s as [| c s IH]; cbn; [tauto |].
  destruct (is_white_space c); cbn; [exact IH |].
  split; discriminate.
Qed.

Lemma trimStart_head (s : jsstring) (c : N) (t : jsstring) :
  trimStart s = c :: t -> is_white_space c = false.
Proof.
  induction s as [| a s IH]; cbn; [discriminate |].
  destruct (is_white_space a) eqn:Ha; [exact IH |].
  intros H. injection H as <- _. exact Ha.
Qed.

Lemma trimStart_app_white (ws t : jsstring) :
  forallb is_white_space ws = true -> trimStart (ws ++ t) = trimStart t.
Proof.
  induction ws as [| c ws IH]; cbn; [reflexivity |].
  destruct (is_white_space c); cbn; [exact IH | discriminate].
Qed.

Lemma forallb_rev {A : Type} (f : A -> bool) (l : list A) :
  forallb f (rev l) = forallb f l.
Proof.
  induction l as [| x l IH]; cbn; [reflexivity |].
  rewrite forallb_app, IH. cbn. rewrite andb_true_r. apply andb_comm.
Qed.

(** X1: the name check of [saveItem], [!name.trim()], turns away exactly
    the texts made of white space only (the empty text among them). *)
Theorem blank_name_iff_all_white (s : jsstring) :
  negb (truthy (trim s)) = forallb is_white_space s.
Proof.
  destruct (forallb is_white_space s) eqn:Hs.
  - apply trimStart_all_white in Hs. unfold trim, trimEnd. rewrite Hs.
    reflexivity.
  - destruct (trim s) as [| c t] eqn:Ht; [| reflexivity].
    exfalso. unfold trim, trimEnd in Ht.
    apply (f_equal (@rev N)) in Ht. rewrite rev_involutive in Ht.
    cbn [rev] in Ht. apply trimStart_all_white in Ht.
    rewrite forallb_rev in Ht.
    destruct (trimStart s) as [| a u] eqn:Hu.
    + apply trimStart_all_white in Hu. congruence.
    + apply trimStart_head in Hu. cbn in Ht. rewrite Hu in Ht. discriminate.
Qed.

Lemma radix_digit_10 (c : N) :
  radix_digit 10 c =
    if is_decimal_digit c then Some (Z.of_N c - 0x30) else None.
Proof.
  unfold radix_digit, digit_value, is_decimal_digit.
  destruct (0x30 <=? c)%N eqn:H1, (c <=? 0x39)%N eqn:H2; cbn [andb].
  - apply N.leb_le in H1, H2.
    destruct (Z.of_N c - 48 <? 10) eqn:H3; [reflexivity |].
    apply Z.ltb_ge in H3. lia.
  - apply N.leb_gt in H2.
    destruct ((0x61 <=? c)%N && (c <=? 0x7A)%N) eqn:H3.
    + apply andb_prop in H3 as [H3 _]. apply N.leb_le in H3.
      destruct (Z.of_N c - 97 + 10 <? 10) eqn:H4; [| reflexivity].
      apply Z.ltb_lt in H4. lia.
    + destruct ((0x41 <=? c)%N && (c <=? 0x5A)%N) eqn:H4; [| reflexivity].
      apply andb_prop in H4 as [H4 _]. apply N.leb_le in H4.
      destruct (Z.of_N c - 65 + 10 <? 10) eqn:H5; [| reflexivity].
      apply Z.ltb_lt in H5. lia.
  - apply N.leb_gt in H1.
    destruct ((0x61 <=? c)%N && (c <=? 0x7A)%N) eqn:H3.
    + apply andb_prop in H3 as [H3 _]. apply N.leb_le in H3. lia.
    + destruct ((0x41 <=? c)%N && (c <=? 0x5A)%N) eqn:H4; [| reflexivity].
      apply andb_prop in H4 as [H4 _]. apply N.leb_le in H4. lia.
  - apply N.leb_gt in H1, H2. lia.
Qed.

Lemma to_number_not_NaN (sign m : Z) :
  Number_isNaN (to_number sign m) = false.
Proof.
  unfold to_number. destruct (round_binary64 m); reflexivity.
Qed.

Lemma to_number_safe (sign m : Z) :
  m < 2 ^ 53 -> to_number sign m = Int (sign * m).
Proof.
  intros Hm. unfold to_number, round_binary64.
  apply Z.ltb_lt in Hm. rewrite Hm. reflexivity.
Qed.

(** [parseInt] in radix 10, its radix steps done. *)
Lemma parseInt_10 (s : jsstring) :
  parseInt s 10 =
    match digits_prefix 10 (drop_sign (trimStart s)) with
    | [] => NaN
    | ds =>
        to_number (match trimStart s with
                   | c :: _ => if (c =? 0x2D)%N then -1 else 1
                   | [] => 1
                   end) (digits_value 10 ds)
    end.
Proof.
  reflexivity.
Qed.

(** X2: base-10 [parseInt] is NaN exactly on the texts that, after
    leading white space and one optional sign, do not start with a
    decimal digit. *)
Theorem parseInt_NaN_iff (s : jsstring) :
  Number_isNaN (parseInt s 10) =
    negb (starts_with_digit (drop_sign (trimStart s))).
Proof.
  rewrite parseInt_10.
  destruct (drop_sign (trimStart s)) as [| c t]; [reflexivity |].
  cbn [digits_prefix starts_with_digit]. rewrite radix_digit_10.
  destruct (is_decimal_digit c); [| reflexivity].
  rewrite to_number_not_NaN. reflexivity.
Qed.

Lemma decimal_digit_range (c : N) :
  is_decimal_digit c = true -> (0x30 <= c <= 0x39)%N.
Proof.
  unfold is_decimal_digit. intros H. apply andb_prop in H as [H1 H2].
  apply N.leb_le in H1, H2. split; assumption.
Qed.

Ltac settle_code_unit_tests c :=
  repeat match goal with
         | |- context [(c =? ?k)%N] =>
             replace (c =? k)%N with false
               by (symmetry; apply N.eqb_neq; lia)
         | |- context [(?k <=? c)%N] =>
             replace (k <=? c)%N with false
               by (symmetry; apply N.leb_gt; lia)
         end.

Lemma decimal_digit_not_white (c : N) :
  is_decimal_digit c = true -> is_white_space c = false.
Proof.
  intros H. apply decimal_digit_range in H. unfold is_white_space.
  settle_code_unit_tests c. reflexivity.
Qed.

Lemma decimal_digit_not_sign (c : N) :
  is_decimal_digit c = true -> (c =? 0x2B)%N = false /\ (c =? 0x2D)%N = false.
Proof.
  intros H. apply decimal_digit_range in H.
  split; apply N.eqb_neq; lia.
Qed.

Lemma digits_prefix_run (ds rest : jsstring) :
  forallb is_decimal_digit ds = true ->
  starts_with_digit rest = false ->
  digits_prefix 10 (ds ++ rest) = map (fun c => Z.of_N c - 0x30) ds.
Proof.
  intros Hds Hrest. induction ds as [| c ds IH].
  - destruct rest as [| r rest]; [reflexivity |].
    cbn [app digits_prefix map]. rewrite radix_digit_10.
    cbn [starts_with_digit] in Hrest. rewrite Hrest. reflexivity.
  - cbn [forallb] in Hds. apply andb_prop in Hds as [Hc Hds].
    cbn [app digits_prefix map]. rewrite radix_digit_10, Hc, (IH Hds).
    reflexivity.
Qed.

Lemma trimStart_digit_run (ds rest : jsstring) :
  ds <> [] -> forallb is_decimal_digit ds = true ->
  trimStart (ds ++ rest) = ds ++ rest.
Proof.
  intros Hne Hds. destruct ds as [| c ds]; [congruence |].
  cbn [forallb] in Hds. apply andb_prop in Hds as [Hc _].
  cbn [app trimStart]. rewrite (decimal_digit_not_white c Hc). reflexivity.
Qed.

Lemma parseInt_digit_run (ws ds rest : jsstring) :
  forallb is_white_space ws = true ->
  ds <> [] ->
  forallb is_decimal_digit ds = true ->
  starts_with_digit rest = false ->
  decimal_value ds < 2 ^ 53 ->
  parseInt (ws ++ ds ++ rest) 10 = Int (decimal_value ds) /\
  parseInt (ws ++ 0x2B%N :: ds ++ rest) 10 = Int (decimal_value ds) /\
  parseInt (ws ++ 0x2D%N :: ds ++ rest) 10 = Int (- decimal_value ds).
Proof.
  intros Hws Hne Hds Hrest Hsafe.
  pose proof (digits_prefix_run ds rest Hds Hrest) as Hrun.
  pose proof (trimStart_digit_run ds rest Hne Hds) as Htrim.
  assert (Hmap : map (fun c => Z.of_N c - 0x30) ds <> [])
    by (destruct ds; [congruence | discriminate]).
  unfold decimal_value in *.
  rewrite !parseInt_10, !(trimStart_app_white ws) by exact Hws.
  repeat split.
  - rewrite Htrim. destruct ds as [| c ds']; [congruence |].
    cbn [forallb] in Hds. apply andb_prop in Hds as [Hc _].
    destruct (decimal_digit_not_sign c Hc) as [Hp Hm].
    change ((c :: ds') ++ rest) with (c :: ds' ++ rest) in *.
    cbn [drop_sign]. rewrite Hp, Hm. cbn [orb].
    rewrite Hrun.
    destruct (map (fun c0 => Z.of_N c0 - 48) (c :: ds')) as [| d l] eqn:Hm';
      [congruence |].
    rewrite to_number_safe by exact Hsafe. f_equal; lia.
  - change (trimStart (0x2B%N :: ds ++ rest)) with (0x2B%N :: ds ++ rest).
    change (drop_sign (0x2B%N :: ds ++ rest)) with (ds ++ rest).
    rewrite Hrun.
    destruct (map (fun c0 => Z.of_N c0 - 48) ds) as [| d l];
      [congruence |].
    change (if (0x2B =? 0x2D)%N then -1 else 1) with (1).
    rewrite to_number_safe by exact Hsafe. f_equal; lia.
  - change (trimStart (0x2D%N :: ds ++ rest)) with (0x2D%N :: ds ++ rest).
    change (drop_sign (0x2D%N :: ds ++ rest)) with (ds ++ rest).
    rewrite Hrun.
    destruct (map (fun c0 => Z.of_N c0 - 48) ds) as [| d l];
      [congruence |].
    change (if (0x2D =? 0x2D)%N then -1 else 1) with (-1).
    rewrite to_number_safe by exact Hsafe. f_equal; lia.
Qed.

(** X3: [saveItem] calls the insert exactly when both checks pass: the
    trimmed name is not empty and base-10 [parseInt] of the quantity text
    is not NaN. *)
Theorem saveItem_inserts_iff {SA : StorageAdapter} (w : World) :
  insert_attempted (calls_during saveItem w) =
    truthy (trim (name w)) && negb (Number_isNaN (parseInt (quantity w) 10)).
Proof.
  destruct (saveItem_cases w) as [[Hb | Hb] _ Hc | q Hn Hz ri rf _ Hc Hnan];
    rewrite Hc.
  - rewrite Hb. reflexivity.
  - rewrite Hb. cbn. rewrite andb_false_r. reflexivity.
  - rewrite Hz, Hnan. destruct (trim (name w)); [congruence |].
    unfold save_events. destruct (fst ri); reflexivity.
Qed.

(** X4: neither callback lets an error out: [loadItems] and [saveItem]
    end normally in every world, whatever the storage functions do. *)
Theorem callbacks_never_throw {SA : StorageAdapter} (w : World) :
  fst (loadItems w) = Normal tt /\ fst (saveItem w) = Normal tt.
Proof.
  split.
  - rewrite loadItems_run. reflexivity.
  - destruct (trim (name w)) as [| c t] eqn:Hn.
    + rewrite saveItem_blank_name by exact Hn. reflexivity.
    + destruct (Number_isNaN (parseInt (quantity w) 10)) eqn:Hnan.
      * rewrite saveItem_NaN; [reflexivity |].
        destruct (parseInt (quantity w) 10); (reflexivity || discriminate).
      * rewrite (saveItem_valid w (parseInt (quantity w) 10));
          [reflexivity | congruence | reflexivity | exact Hnan].
Qed.

Lemma calls_saveItem {SA : StorageAdapter} (w : World) :
  calls (exec saveItem w) = calls w ++ calls_during saveItem w.
Proof.
  destruct (saveItem_cases w) as [_ He Hc | z _ _ ri rf He Hc _];
    rewrite He, Hc.
  - symmetry. apply app_nil_r.
  - apply calls_after_save.
Qed.

(** X5: one press of the button calls the insert at most once, and the
    fetch exactly once if the insert succeeded and not at all otherwise:
    nothing is retried, and no fetch follows a failed insert. *)
Theorem saveItem_no_retry {SA : StorageAdapter} (w : World) :
  (inserts (calls_during saveItem w) <= 1)%nat /\
  fetches (calls_during saveItem w) =
    (if insert_succeeded (calls_during saveItem w) then 1 else 0)%nat.
Proof.
  destruct (saveItem_cases w) as [_ _ Hc | z _ _ ri rf _ Hc _]; rewrite Hc.
  - cbn. split; [lia | reflexivity].
  - unfold save_events. destruct (fst ri); cbn; split; (lia || reflexivity).
Qed.

Lemma handle_calls {SA : StorageAdapter} (a : UserAction) (w : World) :
  exists new,
    calls (handle a w) = calls w ++ new /\
    (inserts new <= (if is_PressSave a then 1 else 0))%nat /\
    (fetches new <= (if is_PressSave a then 1 else 0))%nat /\
    (fetch_succeeded new = false -> items (handle a w) = items w).
Proof.
  destruct a as [text | text |]; cbn [handle is_PressSave].
  - exists []. cbn. rewrite app_nil_r. repeat split; auto.
  - exists []. cbn. rewrite app_nil_r. repeat split; auto.
  - exists (calls_during saveItem w). split; [apply calls_saveItem |].
    destruct (saveItem_cases w) as [_ He Hc | z _ _ ri rf He Hc _];
      rewrite He, Hc.
    + cbn. repeat split; lia.
    + unfold save_events.
      destruct (fst ri); [destruct (fst rf) |]; cbn;
        repeat split; try lia; congruence.
Qed.

Lemma filter_length_app {A : Type} (f : A -> bool) (l l' : list A) :
  List.length (filter f (l ++ l')) =
    (List.length (filter f l) + List.length (filter f l'))%nat.
Proof.
  rewrite filter_app. apply length_app.
Qed.

(** X6: over any session, the insert is called at most once per press
    of the button, and so is the fetch: typing in the fields never
    reaches the storage. *)
Theorem session_calls_bounded {SA : StorageAdapter}
        (actions : list UserAction) (w : World) :
  (inserts (calls (session actions w)) <= inserts (calls w) + presses actions)%nat /\
  (fetches (calls (session actions w)) <= fetches (calls w) + presses actions)%nat.
Proof.
  revert w. induction actions as [| a actions IH]; intros w.
  - cbn. lia.
  - change (session (a :: actions) w) with (session actions (handle a w)).
    destruct (IH (handle a w)) as [IHi IHf].
    destruct (handle_calls a w) as [new [Hc [Hi [Hf _]]]].
    rewrite Hc in IHi, IHf. unfold inserts, fetches in *.
    rewrite filter_length_app in IHi, IHf.
    unfold presses in *. cbn [filter]. revert Hi Hf. unfold inserts, fetches.
    destruct (is_PressSave a); cbn [List.length]; lia.
Qed.

(** X7: over any session, the list on the screen changes only when a
    fetch succeeds: if none of the session's fetches succeeded, the list
    is the one the session started with. *)
Theorem session_list_changes_only_on_fetch {SA : StorageAdapter}
        (actions : list UserAction) (w : World) :
  fetch_succeeded
    (skipn (List.length (calls w)) (calls (session actions w))) = false ->
  items (session actions w) = items w.
Proof.
  revert w. induction actions as [| a actions IH]; intros w Hs.
  - reflexivity.
  - change (session (a :: actions) w) with (session actions (handle a w)) in *.
    destruct (handle_calls a w) as [new [Hc [_ [_ Hitems]]]].
    assert (Hgrow : exists more,
               calls (session actions (handle a w)) = calls (handle a w) ++ more).
    { clear. generalize (handle a w). induction actions as [| b actions IH];
        intros v.
      - exists []. symmetry. apply app_nil_r.
      - change (session (b :: actions) v) with (session actions (handle b v)).
        destruct (IH (handle b v)) as [more Hm].
        destruct (handle_calls b v) as [new [Hc _]].
        exists (new ++ more). rewrite Hm, Hc. symmetry. apply app_assoc. }
    destruct Hgrow as [more Hm].
    rewrite Hm, Hc, <- app_assoc, skipn_length_app in Hs.
    unfold fetch_succeeded in Hs. rewrite existsb_app in Hs.
    apply orb_false_elim in Hs as [Hnew Hmore].
    rewrite IH.
    + apply Hitems. exact Hnew.
    + rewrite Hm, skipn_length_app. exact Hmore.
Qed.

Lemma session_list_changes_only_on_fetch_witness :
  items (session [ChangeName (lit "Apples"); ChangeQuantity (lit "5"); PressSave;
                  ChangeName (lit "Pears"); ChangeQuantity (lit "x"); PressSave]
                 (mount (App (SA := Db.adapter)
                             (Db.mkStore [] [None; None; Some unreachable]))))
  = items (mount (App (SA := Db.adapter)
                      (Db.mkStore [] [None; None; Some unreachable]))).
Proof.
  apply (session_list_changes_only_on_fetch
           [ChangeName (lit "Apples"); ChangeQuantity (lit "5"); PressSave;
            ChangeName (lit "Pears"); ChangeQuantity (lit "x"); PressSave]).
  reflexivity.
Defined.

(* ================================================================= *)
(** ** The console, and pressing the button again *)

Lemma app_two_neq {A : Type} (l : list A) (a b : A) : l ++ [a; b] <> l.
Proof.
  intros H. apply (f_equal (@List.length A)) in H.
  rewrite length_app in H. cbn in H. lia.
Qed.

(** X8: a save writes to the console exactly when one of its storage
    calls fails; a rejected input and a save that goes through are both
    silent. *)
Theorem saveItem_silent_iff_no_failure {SA : StorageAdapter} (w : World) :
  console (exec saveItem w) = console w <->
  insert_failed (calls_during saveItem w)
    || fetch_failed (calls_during saveItem w) = false.
Proof.
  destruct (saveItem_cases w) as [_ He Hc | z _ _ ri rf He Hc _];
    rewrite He, Hc.
  - split; reflexivity.
  - unfold save_events, after_save.
    destruct (fst ri) as [u | e]; [destruct (fst rf) as [v | e] |];
      cbn [console]; cbn -[lit]; split; intros H;
      try reflexivity; try discriminate H;
      exfalso; exact (app_two_neq _ _ _ H).
Qed.

(** X9: the console of a failed save names the call that failed and
    holds the error that call threw: the save message and the error of
    the insert when the insert threw; the fetch message and the error of
    the fetch when the reload's fetch threw. *)
Theorem saveItem_failure_message {SA : StorageAdapter} (w : World) :
  insert_failed (calls_during saveItem w)
    || fetch_failed (calls_during saveItem w) = true ->
  console (exec saveItem w) =
    console w ++
      match fst (insertItem (db w) (name w) (parseInt (quantity w) 10)) with
      | Throw err => [LogStr (lit "Failed to save item"); LogErr err]
      | Normal _ =>
          match fst (fetchItems
                       (snd (insertItem (db w) (name w)
                                        (parseInt (quantity w) 10)))) with
          | Throw err => [LogStr (lit "Failed to fetch items"); LogErr err]
          | Normal _ => []
          end
      end.
Proof.
  intros Hf.
  destruct (saveItem_cases w) as [_ _ Hc | q _ Hz ri rf He Hc _].
  - rewrite Hc in Hf. discriminate Hf.
  - rewrite He, Hz. clear He Hc Hf. fold ri. fold rf.
    unfold after_save.
    destruct (fst ri) as [u | e]; [destruct (fst rf) as [v | e] |];
      cbn [console]; try reflexivity.
    symmetry. apply app_nil_r.
Qed.

Lemma saveItem_failure_message_witness :
  console (exec saveItem
             (typed "Apples" "5" (Db.mkStore [] [None; None; Some unreachable]))) =
    console (typed "Apples" "5" (Db.mkStore [] [None; None; Some unreachable])) ++
      [LogStr (lit "Failed to fetch items"); LogErr unreachable].
Proof.
  apply (saveItem_failure_message
           (typed "Apples" "5" (Db.mkStore [] [None; None; Some unreachable]))).
  reflexivity.
Defined.

(** X10: once a save's insert has succeeded, pressing the button again
    straight away does nothing at all: the fields were cleared, so the
    second press is turned away and the item is not inserted twice. *)
Theorem saveItem_again_after_insert {SA : StorageAdapter} (w : World) :
  insert_succeeded (calls_during saveItem w) = true ->
  exec saveItem (exec saveItem w) = exec saveItem w.
Proof.
  intros Hs.
  destruct (saveItem_cases w) as [_ _ Hc | z _ _ ri rf He Hc _].
  - rewrite Hc in Hs. discriminate Hs.
  - rewrite Hc in Hs. rewrite He. clear He Hc.
    unfold save_events in Hs.
    destruct (fst ri) as [u | e]; [| discriminate Hs].
    unfold exec at 1. rewrite saveItem_blank_name; [reflexivity |].
    destruct (fst rf); reflexivity.
Qed.

Lemma saveItem_again_after_insert_witness :
  exec saveItem (exec saveItem (typed "Apples" "5" Db.empty)) =
  exec saveItem (typed "Apples" "5" Db.empty).
Proof.
  apply (saveItem_again_after_insert (typed "Apples" "5" Db.empty)).
  reflexivity.
Defined.

(** X11: after a save whose insert failed, the fields still hold what was
    typed, so pressing the button again calls the insert again with the
    same name and the same quantity. *)
Theorem saveItem_again_after_failed_insert {SA : StorageAdapter} (w : World) :
  insert_failed (calls_during saveItem w) = true ->
  exists rest,
    calls_during saveItem (exec saveItem w) =
      CallInsert (name w) (parseInt (quantity w) 10) :: rest.
Proof.
  intros Hf.
  destruct (saveItem_cases w) as [_ _ Hc | z Hn Hz ri rf He Hc Hnan].
  - rewrite Hc in Hf. discriminate Hf.
  - rewrite Hc in Hf. unfold save_events in Hf.
    destruct (fst ri) as [u | e] eqn:Hri; [discriminate Hf |].
    assert (Hname : name (exec saveItem w) = name w)
      by (rewrite He; reflexivity).
    assert (Hquantity : quantity (exec saveItem w) = quantity w)
      by (rewrite He; reflexivity).
    destruct (saveItem_cases (exec saveItem w))
      as [[Hb | Hb] _ _ | z' _ Hz' ri' rf' _ Hc' _].
    + rewrite Hname in Hb. contradiction.
    + rewrite Hquantity, Hz in Hb. rewrite Hb in Hnan. discriminate Hnan.
    + rewrite Hc', Hname, Hz. rewrite Hquantity, Hz in Hz'.
      subst z'. unfold save_events.
      destruct (fst ri'); eexists; reflexivity.
Qed.

Lemma saveItem_again_after_failed_insert_witness :
  exists rest,
    calls_during saveItem
      (exec saveItem (typed " Apples" "5kg" (Db.mkStore [] [None; Some unreachable]))) =
      CallInsert (lit " Apples") (Int 5) :: rest.
Proof.
  apply (saveItem_again_after_failed_insert
           (typed " Apples" "5kg" (Db.mkStore [] [None; Some unreachable]))).
  reflexivity.
Defined.

(* ================================================================= *)
(** ** Numbers written and read back *)

Lemma decimal_value_snoc (ds : jsstring) (c : N) :
  decimal_value (ds ++ [c]) = decimal_value ds * 10 + (Z.of_N c - 0x30).
Proof.
  unfold decimal_value, digits_value. rewrite map_app, fold_left_app.
  reflexivity.
Qed.

Lemma digit_char_digit (d : Z) :
  0 <= d < 10 ->
  is_decimal_digit (digit_char d) = true /\ Z.of_N (digit_char d) - 0x30 = d.
Proof.
  intros Hd. unfold is_decimal_digit, digit_char. split.
  - apply andb_true_intro. split; apply N.leb_le; lia.
  - lia.
Qed.

Lemma log2_tenth (z : Z) : 10 <= z -> Z.log2 (z / 10) < Z.log2 z.
Proof.
  intros Hz.
  assert (Hq : 0 < z / 10) by (apply Z.div_str_pos; lia).
  assert (H2 : 2 * (z / 10) <= z).
  { pose proof (Z.mul_div_le z 10). lia. }
  pose proof (Z.log2_double (z / 10) Hq) as Hd.
  pose proof (Z.log2_le_mono _ _ H2) as Hm. lia.
Qed.

Lemma decimal_digits_spec (fuel : nat) :
  forall z, 0 <= z -> Z.log2 z < Z.of_nat fuel ->
    decimal_digits fuel z <> [] /\
    forallb is_decimal_digit (decimal_digits fuel z) = true /\
    decimal_value (decimal_digits fuel z) = z.
Proof.
  induction fuel as [| fuel IH]; intros z Hz Hlog.
  - pose proof (Z.log2_nonneg z). lia.
  - cbn [decimal_digits]. destruct (z <? 10) eqn:Hlt.
    + apply Z.ltb_lt in Hlt.
      destruct (digit_char_digit z) as [Hd Hv]; [lia |].
      split; [discriminate |]. split.
      * cbn [forallb]. rewrite Hd. reflexivity.
      * change [digit_char z] with ([] ++ [digit_char z]).
        rewrite decimal_value_snoc, Hv. reflexivity.
    + apply Z.ltb_ge in Hlt.
      assert (Hq : 0 <= z / 10) by (apply Z.div_pos; lia).
      pose proof (log2_tenth z Hlt) as Hl.
      destruct (IH (z / 10) Hq) as [_ [Hall Hval]]; [lia |].
      destruct (digit_char_digit (z mod 10)) as [Hd Hv];
        [apply Z.mod_pos_bound; lia |].
      split; [intros H; apply app_eq_nil in H as [_ H]; discriminate H |].
      split.
      * rewrite forallb_app, Hall. cbn [forallb]. rewrite Hd. reflexivity.
      * rewrite decimal_value_snoc, Hval, Hv.
        pose proof (Z.div_mod z 10). lia.
Qed.

Lemma decimal_digits_of (z : Z) :
  0 <= z ->
  decimal_digits (S (Z.to_nat (Z.log2 z))) z <> [] /\
  forallb is_decimal_digit (decimal_digits (S (Z.to_nat (Z.log2 z))) z) = true /\
  decimal_value (decimal_digits (S (Z.to_nat (Z.log2 z))) z) = z.
Proof.
  intros Hz. apply decimal_digits_spec; [exact Hz |].
  pose proof (Z.log2_nonneg z). lia.
Qed.

Lemma parseInt_toString_Int (z : Z) :
  safe_integer z ->
  parseInt (Number_toString (Int z)) 10 = Int z.
Proof.
  unfold safe_integer. intros Hsafe.
  unfold Number_toString. destruct (z <? 0) eqn:Hneg.
  - apply Z.ltb_lt in Hneg.
    destruct (decimal_digits_of (- z)) as [Hne [Hall Hval]]; [lia |].
    destruct (parseInt_digit_run [] _ [] eq_refl Hne Hall eq_refl)
      as [_ [_ Hm]]; [rewrite Hval; lia |].
    cbn [app] in Hm. rewrite app_nil_r in Hm. rewrite Hm, Hval.
    f_equal. lia.
  - apply Z.ltb_ge in Hneg.
    destruct (decimal_digits_of z Hneg) as [Hne [Hall Hval]].
    destruct (parseInt_digit_run [] _ [] eq_refl Hne Hall eq_refl)
      as [Hp _]; [rewrite Hval; lia |].
    cbn [app] in Hp. rewrite app_nil_r in Hp. rewrite Hp, Hval.
    reflexivity.
Qed.

(** X12: what a row of the list shows for a quantity reads back as that
    quantity: base-10 [parseInt] of the text rendered for the quantity of
    an Item, NaN or a safe integer, is that quantity.  (An infinity is
    shown by its name, which reads back as NaN.) *)
Theorem shown_quantity_reads_back (item : Item) :
  (forall z, item_quantity item = Int z -> safe_integer z) ->
  (forall negative, item_quantity item <> Infinity negative) ->
  parseInt (snd (renderItem item)) 10 = item_quantity item.
Proof.
  intros Hsafe Hfinite. unfold renderItem. cbn [snd].
  destruct (item_quantity item) as [| z | negative].
  - reflexivity.
  - apply parseInt_toString_Int. apply Hsafe. reflexivity.
  - exfalso. exact (Hfinite negative eq_refl).
Qed.

Lemma safe_integer_small (z : Z) : Z.abs z < 1000 -> safe_integer z.
Proof.
  unfold safe_integer. intros H.
  apply Z.lt_trans with (m := 1000); [exact H | reflexivity].
Defined.

Lemma shown_quantity_reads_back_witness :
  parseInt (snd (renderItem (mkItem 3 (lit "Apples") (Int (-120))))) 10 =
    Int (-120).
Proof.
  apply (shown_quantity_reads_back (mkItem 3 (lit "Apples") (Int (-120)))).
  - intros z Hz. injection Hz as <-. apply safe_integer_small. reflexivity.
  - intros negative Hinf. discriminate Hinf.
Defined.

Lemma keyExtractor_injective (a b : Item) :
  safe_integer (item_id a) -> safe_integer (item_id b) ->
  keyExtractor a = keyExtractor b -> item_id a = item_id b.
Proof.
  unfold keyExtractor. intros Ha Hb H.
  apply (f_equal (fun s => parseInt s 10)) in H.
  rewrite !parseInt_toString_Int in H by assumption.
  injection H as H. exact H.
Qed.

(** X13: the keys the list gives its rows are pairwise distinct whenever
    the identifiers of the displayed Items are, for identifiers that are
    safe integers. *)
Theorem keys_distinct (l : list Item) :
  Forall (fun item => safe_integer (item_id item)) l ->
  NoDup (map item_id l) ->
  NoDup (map keyExtractor l).
Proof.
  intros Hsafe Hnd. induction l as [| a l IH]; [constructor |].
  cbn [map] in *. inversion Hnd as [| x xs Hnotin Hnd']; subst.
  inversion Hsafe as [| y ys Ha Hl]; subst.
  constructor; [| exact (IH Hl Hnd')].
  intros Hin. apply Hnotin.
  apply in_map_iff in Hin as [b [Hkey Hb]].
  apply keyExtractor_injective in Hkey;
    [| exact (proj1 (Forall_forall _ _) Hl b Hb) | exact Ha].
  rewrite <- Hkey. apply in_map. exact Hb.
Qed.

Lemma keys_distinct_witness :
  NoDup (map keyExtractor
             [mkItem 1 (lit "Apples") (Int 5); mkItem 10 (lit "Apples") (Int 5);
              mkItem 2 (lit "Pears") NaN]).
Proof.
  apply (keys_distinct
           [mkItem 1 (lit "Apples") (Int 5); mkItem 10 (lit "Apples") (Int 5);
            mkItem 2 (lit "Pears") NaN]).
  - repeat constructor; apply safe_integer_small; reflexivity.
  - repeat constructor; cbn; intuition discriminate.
Defined.

(* ================================================================= *)
(** ** The quantity a save inserts *)

(** X14: with a name that is not blank, and a quantity text made of
    white space, then a minus sign or none, then decimal digits, then
    anything that does not start with a digit, [saveItem] inserts the
    value of those digits, negated after a minus sign, as long as that
    value is below 2^53 (beyond, the nearest binary64 is what goes in).
    Negative quantities and trailing text are both let through. *)
Theorem saveItem_inserts_first_digits {SA : StorageAdapter} (w : World)
        (ws ds rest : jsstring) (minus : bool) :
  trim (name w) <> [] ->
  forallb is_white_space ws = true ->
  ds <> [] ->
  forallb is_decimal_digit ds = true ->
  starts_with_digit rest = false ->
  decimal_value ds < 2 ^ 53 ->
  quantity w = ws ++ (if minus then [0x2D%N] else []) ++ ds ++ rest ->
  exists more,
    calls_during saveItem w =
      CallInsert (name w)
                 (Int (if minus then - decimal_value ds else decimal_value ds))
        :: more.
Proof.
  intros Hn Hws Hne Hds Hrest Hsafe Hq.
  destruct (parseInt_digit_run ws ds rest Hws Hne Hds Hrest Hsafe)
    as [Hu [_ Hm]].
  assert (Hp : parseInt (quantity w) 10 =
               Int (if minus then - decimal_value ds else decimal_value ds)).
  { rewrite Hq. destruct minus; cbn [app]; assumption. }
  destruct (saveItem_cases w) as [[Hb | Hb] _ _ | z _ Hz ri rf _ Hc _].
  - contradiction.
  - rewrite Hp in Hb. discriminate Hb.
  - rewrite Hc, <- Hz, Hp. unfold save_events.
    destruct (fst ri); eexists; reflexivity.
Qed.

Lemma saveItem_inserts_first_digits_witness :
  exists more,
    calls_during saveItem (typed "Apples" " -5 kg" Db.empty) =
      CallInsert (lit "Apples") (Int (-5)) :: more.
Proof.
  apply (saveItem_inserts_first_digits (typed "Apples" " -5 kg" Db.empty)
           (lit " ") (lit "5") (lit " kg") true);
    try reflexivity; discriminate.
Defined.

(* ================================================================= *)
(** ** The bundler configuration *)

Lemma strict_neq_false (a b : jsstring) :
  Metro.strict_neq a b = false <-> a = b.
Proof.
  unfold Metro.strict_neq. destruct (list_eq_dec N.eq_dec a b); split;
    congruence.
Qed.

(** X15: whatever the default resolver lists, the exported configuration
    has wasm among the asset extensions and not among the source
    extensions; every other extension is an asset or a source extension
    exactly as it was by default. *)
Theorem metro_wasm_is_an_asset (defaults : Metro.Resolver) :
  In (lit "wasm") (Metro.assetExts (Metro.config defaults)) /\
  ~ In (lit "wasm") (Metro.sourceExts (Metro.config defaults)) /\
  forall ext, ext <> lit "wasm" ->
    (In ext (Metro.assetExts (Metro.config defaults)) <->
     In ext (Metro.assetExts defaults)) /\
    (In ext (Metro.sourceExts (Metro.config defaults)) <->
     In ext (Metro.sourceExts defaults)).
Proof.
  unfold Metro.config. cbn [Metro.assetExts Metro.sourceExts].
  split; [apply in_or_app; right; left; reflexivity |].
  split.
  - intros H. apply filter_In in H as [_ H].
    assert (Hf : Metro.strict_neq (lit "wasm") (lit "wasm") = false)
      by (apply strict_neq_false; reflexivity).
    rewrite Hf in H. discriminate H.
  - intros ext Hext. split.
    + rewrite in_app_iff. split; [| auto].
      intros [H | [H | []]]; [exact H | congruence].
    + rewrite filter_In. split; [tauto |].
      intros H. split; [exact H |].
      destruct (Metro.strict_neq ext (lit "wasm")) eqn:Hs; [reflexivity |].
      apply strict_neq_false in Hs. contradiction.
Qed.
